(** * RotatingSquare.js: a square rotating about a selected vertex

    A shallow embedding of [src/RotatingSquare.js].

    Numbers.  JavaScript numbers are binary64 floating-point numbers.
    Vertex indices, the pivot index [edge] and the animation counter
    [rotation] only ever hold small integers, on which that arithmetic
    is exact, and are integers ([Z]).  The remainder operator [%] is
    [Z.rem]: the sign of the result follows the dividend.

    Coordinates, canvas dimensions and angles are idealised as real
    numbers ([R]), with exact sine and cosine.  What is proved of them
    says what the code computes up to rounding: it carries over to the
    code where the code's own result is exact (the zero angle, half and
    full turns, the values on small canvases used below) and where an
    inequality leaves room for the rounding; an exact equation or a
    strict inequality between values that rounding can bring together
    does not.  Where rounding decides, [Binary64.mapToViewport] gives
    the same expression in the arithmetic of the code.

    Reading outside a typed array yields [undefined], which is [None]. *)

From Stdlib Require Import Reals Lra Lia ZArith List String Bool Floats.
Import ListNotations.

Local Open Scope Z_scope.

(** ** Geometry store *)

Module Geometry.

(** [var vertices = new Float32Array([...])]: two values per vertex. *)
Definition vertices : list R :=
  [ -0.5; -0.5; 0.5; -0.5; 0.5; 0.5; -0.5; -0.5; 0.5; 0.5; -0.5; 0.5 ]%R.

(** [vertices.length]. *)
Definition length (a : list R) : Z := Z.of_nat (List.length a).

(** [var numPoints = vertices.length / 2]. *)
Definition numPoints : Z := length vertices / 2.

(** [a[j]] on a typed array: an index below zero or past the end reads
    [undefined]. *)
Definition read (a : list R) (j : Z) : option R :=
  if j <? 0 then None else nth_error a (Z.to_nat j).

(** [function getVertex(i)]:
    [let j = (i % numPoints) * 2; return [vertices[j], vertices[j + 1]]]. *)
Definition getVertex (i : Z) : option R * option R :=
  let j := Z.rem i numPoints * 2 in
  (read vertices j, read vertices (j + 1)).

End Geometry.

(** ** Viewport mapper *)

Local Open Scope R_scope.

(** A pair of coordinates: what [mapToViewport] returns and what a
    [DOMPoint(x, y)] carries (its [z] is 0 and its [w] is 1). *)
Definition point : Type := R * R.

Section Viewport.

(** [var w], [var h]: the canvas width and height, assigned once by
    [mainEntrance] before the first frame. *)
Variables w h : R.

(** [function mapToViewport(x, y, n = 5)]:
    [return [((x + n / 2) * w) / n, ((-y + n / 2) * h) / n]]. *)
Definition mapToViewport (x y n : R) : point :=
  (((x + n / 2) * w) / n, ((- y + n / 2) * h) / n).

(** [mapToViewport(...getVertex(i))]: the two components of the vertex
    are spread into [x] and [y], and [n] takes its default 5.  A
    component that is [undefined] has no projection. *)
Definition project (i : Z) : option point :=
  match Geometry.getVertex i with
  | (Some x, Some y) => Some (mapToViewport x y 5)
  | _ => None
  end.

End Viewport.

(** The same function in binary64, the arithmetic the code runs in:
    every operation rounds to the nearest double. *)

Module Binary64.

(** [function mapToViewport(x, y, n = 5)], with [w] and [h] doubles. *)
Definition mapToViewport (w h x y n : float) : float * float :=
  (((x + n / 2) * w) / n, ((- y + n / 2) * h) / n)%float.

End Binary64.

(** ** DOMMatrix and DOMPoint

    The 2D part of a [DOMMatrix]: [translate] with a zero [tz] and
    [rotate] with one argument keep the matrix 2D, and a [DOMPoint(x, y)]
    has [z = 0] and [w = 1], so only these six entries ever matter. *)

Module DOM.

Record DOMMatrix : Type := mkMatrix
  { m11 : R; m12 : R; m21 : R; m22 : R; m41 : R; m42 : R }.

(** [new DOMMatrix()]. *)
Definition identity : DOMMatrix := mkMatrix 1 0 0 1 0 0.

(** The product [A * B]: the transform that applies [B] first, then [A]. *)
Definition multiply (A B : DOMMatrix) : DOMMatrix :=
  mkMatrix
    (m11 A * m11 B + m21 A * m12 B)
    (m12 A * m11 B + m22 A * m12 B)
    (m11 A * m21 B + m21 A * m22 B)
    (m12 A * m21 B + m22 A * m22 B)
    (m11 A * m41 B + m21 A * m42 B + m41 A)
    (m12 A * m41 B + m22 A * m42 B + m42 A).

(** [A.translate(tx, ty, 0)]: a copy of [A] post-multiplied by the
    translation. *)
Definition translate (A : DOMMatrix) (tx ty : R) : DOMMatrix :=
  multiply A (mkMatrix 1 0 0 1 tx ty).

(** [A.rotate(deg)]: a copy of [A] post-multiplied by the rotation about
    the z axis by [deg] degrees. *)
Definition rotate (A : DOMMatrix) (deg : R) : DOMMatrix :=
  let t := deg * PI / 180 in
  multiply A (mkMatrix (cos t) (sin t) (- sin t) (cos t) 0 0).

(** [p.matrixTransform(m)].  The argument is optional: [undefined]
    ([None]) stands for the identity matrix. *)
Definition matrixTransform (p : point) (m : option DOMMatrix) : point :=
  let M := match m with Some M => M | None => identity end in
  (m11 M * fst p + m21 M * snd p + m41 M,
   m12 M * fst p + m22 M * snd p + m42 M).

End DOM.

(** ** The 2D rendering context

    The part of [CanvasRenderingContext2D] that [draw] uses, as the HTML
    standard defines it: a fill style, the current default path
    (subpaths are kept until [beginPath] empties the path; filling does
    not consume them) and the surface, kept as the fills made so far. *)

Module Canvas.

(** The points of a subpath, in the order they were added. *)
Definition subpath : Type := list point.

Record Context2D : Type := mkContext
  { fillStyle : string;
    (** the current default path, the latest subpath first *)
    path : list subpath;
    (** every fill made so far, the latest first: its style and the path
        it filled *)
    painted : list (string * list subpath) }.

(** A context just obtained from [getContext("2d")]. *)
Definition fresh : Context2D := mkContext "#000000"%string [] [].

(** [ctx.fillStyle = style]. *)
Definition set_fillStyle (style : string) (ctx : Context2D) : Context2D :=
  mkContext style (path ctx) (painted ctx).

(** [ctx.beginPath()]: empties the list of subpaths. *)
Definition beginPath (ctx : Context2D) : Context2D :=
  mkContext (fillStyle ctx) [] (painted ctx).

(** [ctx.moveTo(x, y)]: a new subpath with that one point. *)
Definition moveTo (x y : R) (ctx : Context2D) : Context2D :=
  mkContext (fillStyle ctx) ([(x, y)] :: path ctx) (painted ctx).

(** [ctx.lineTo(x, y)]: with no subpath it acts as [moveTo]; otherwise it
    adds the point to the latest subpath. *)
Definition lineTo (x y : R) (ctx : Context2D) : Context2D :=
  match path ctx with
  | [] => moveTo x y ctx
  | sp :: older => mkContext (fillStyle ctx) ((sp ++ [(x, y)]) :: older) (painted ctx)
  end.

(** [ctx.closePath()]: nothing with no subpath; otherwise the latest
    subpath is closed and a new one starts at its first point. *)
Definition closePath (ctx : Context2D) : Context2D :=
  match path ctx with
  | (p0 :: _) :: _ => mkContext (fillStyle ctx) ([p0] :: path ctx) (painted ctx)
  | _ => ctx
  end.

(** [ctx.rect(x, y, w, h)]: a closed subpath with the four corners, then
    a new subpath starting at [(x, y)]. *)
Definition rect (x y w h : R) (ctx : Context2D) : Context2D :=
  mkContext (fillStyle ctx)
    ([(x, y)] :: [(x, y); (x + w, y); (x + w, y + h); (x, y + h)] :: path ctx)
    (painted ctx).

(** [ctx.fill()]: fills all the subpaths of the current path with the
    fill style; the path is left as it is. *)
Definition fill (ctx : Context2D) : Context2D :=
  mkContext (fillStyle ctx) (path ctx) ((fillStyle ctx, path ctx) :: painted ctx).

(** *** Which points a fill paints: the non-zero winding rule

    [fill()] uses the non-zero winding rule over all the subpaths of the
    path together, every subpath taken as closed. *)

(** Positive when [p] is on the left of the line from [a] to [b]. *)
Definition isLeft (a b p : point) : R :=
  (fst b - fst a) * (snd p - snd a) - (fst p - fst a) * (snd b - snd a).

(** What the edge from [a] to [b] adds to the winding number about [p]. *)
Definition crossing (p a b : point) : Z :=
  if Rle_dec (snd a) (snd p) then
    if Rlt_dec (snd p) (snd b) then
      if Rlt_dec 0 (isLeft a b p) then 1%Z else 0%Z
    else 0%Z
  else
    if Rle_dec (snd b) (snd p) then
      if Rlt_dec (isLeft a b p) 0 then (-1)%Z else 0%Z
    else 0%Z.

(** The edges of a subpath from its points [sp] on, the last edge
    returning to [first]. *)
Fixpoint edges (p first : point) (sp : list point) : Z :=
  match sp with
  | [] => 0%Z
  | a :: rest =>
      match rest with
      | [] => crossing p a first
      | b :: _ => (crossing p a b + edges p first rest)%Z
      end
  end.

(** The winding number of a closed subpath about [p]. *)
Definition winding (p : point) (sp : subpath) : Z :=
  match sp with
  | [] => 0%Z
  | first :: _ => edges p first sp
  end.

(** The winding number of a whole path: the sum over its subpaths. *)
Fixpoint path_winding (p : point) (pth : list subpath) : Z :=
  match pth with
  | [] => 0%Z
  | sp :: older => (winding p sp + path_winding p older)%Z
  end.

(** A fill of [pth] paints [p]. *)
Definition inside (p : point) (pth : list subpath) : bool :=
  negb (path_winding p pth =? 0)%Z.

(** The colour of the surface at [p] after the given fills (all styles
    used are opaque): that of the latest fill that painted [p], [None]
    where nothing was painted. *)
Fixpoint colour (fills : list (string * list subpath)) (p : point) : option string :=
  match fills with
  | [] => None
  | (style, pth) :: earlier => if inside p pth then Some style else colour earlier p
  end.

(** The pixel result of a context, sampled at the point [p] of the
    ideal polygons.  A real surface blends the fill colour into the
    pixels an edge passes through; this says what a pixel shows only
    where no edge of a filled path crosses it. *)
Definition pixel (ctx : Context2D) (p : point) : option string :=
  colour (painted ctx) p.

End Canvas.

(** ** Renderer *)

Section Renderer.

Import DOM Canvas.

(** The globals [draw] reads: [w], [h] and the pivot index [edge]. *)
Variables (w h : R) (edge : Z).

(** The two fill styles of [draw]. *)
Definition white : string := "rgba(255, 255, 255, 1)"%string.
Definition teal : string := "rgba(0, 204, 204, 1)"%string.

(** The values [i] takes in [for (let i = 0; i < numPoints; i++)]. *)
Definition indices : list Z :=
  map Z.of_nat (seq 0 (Z.to_nat Geometry.numPoints)).

(** [matrix.translate(w-x, h-y, 0).rotate(rotation).translate(x-w, y-h, 0)]
    with [matrix = new DOMMatrix()]. *)
Definition pivotMatrix (rotation x y : R) : DOMMatrix :=
  translate (rotate (translate identity (w - x) (h - y)) rotation) (x - w) (y - h).

(** The first loop of [draw]: every vertex is projected and pushed onto
    [points]; at [i == edge] the matrix [m] is assigned.  [m] is a [var],
    so it is [undefined] ([None]) until then.  The result is [None] when
    a vertex has an [undefined] component. *)
Fixpoint projectAll (rotation : R) (js : list Z)
    (points : list point) (m : option DOMMatrix)
  : option (list point * option DOMMatrix) :=
  match js with
  | [] => Some (points, m)
  | i :: js' =>
      match project w h i with
      | Some (x, y) =>
          projectAll rotation js' (points ++ [(x, y)])
            (if (i =? edge)%Z then Some (pivotMatrix rotation x y) else m)
      | None => None
      end
  end.

(** The second loop of [draw]: [points[i]] is transformed by [m] and
    handed to [moveTo] for [i == 0] and to [lineTo] otherwise. *)
Fixpoint tracePoints (js : list Z) (points : list point)
    (m : option DOMMatrix) (ctx : Context2D) : option Context2D :=
  match js with
  | [] => Some ctx
  | i :: js' =>
      match nth_error points (Z.to_nat i) with
      | Some p =>
          let pointRotated := matrixTransform p m in
          tracePoints js' points m
            (if (i =? 0)%Z
             then moveTo (fst pointRotated) (snd pointRotated) ctx
             else lineTo (fst pointRotated) (snd pointRotated) ctx)
      | None => None
      end
  end.

(** [function draw(ctx, rotation)]. *)
Definition draw (ctx : Context2D) (rotation : R) : option Context2D :=
  let ctx := set_fillStyle white ctx in
  let ctx := rect 0 0 w h ctx in
  let ctx := fill ctx in
  let ctx := beginPath ctx in
  match projectAll rotation indices [] None with
  | Some (points, m) =>
      match tracePoints indices points m ctx with
      | Some ctx =>
          let ctx := closePath ctx in
          let ctx := set_fillStyle teal ctx in
          Some (fill ctx)
      | None => None
      end
  | None => None
  end.

(** The points [draw] hands to [moveTo] and [lineTo], in order: the
    projected points, each transformed by [m]. *)
Definition drawnPoints (rotation : R) : option (list point) :=
  match projectAll rotation indices [] None with
  | Some (points, m) => Some (map (fun p => matrixTransform p m) points)
  | None => None
  end.

(** The plain [mapToViewport] output of the vertices [js]. *)
Fixpoint projected (js : list Z) : option (list point) :=
  match js with
  | [] => Some []
  | i :: js' =>
      match project w h i, projected js' with
      | Some p, Some ps => Some (p :: ps)
      | _, _ => None
      end
  end.

End Renderer.

(** ** Pivot selector and animation driver *)

Module Driver.

Import Canvas.

(** [const indexCoord = {'r': 0, 'g': 1, 'b': 2, 'w': 3}]. *)
Definition indexCoord : list (string * Z) :=
  [("r"%string, 0%Z); ("g"%string, 1%Z); ("b"%string, 2%Z); ("w"%string, 3%Z)].

(** [o[key]]: the value of the property [key], [None] for [undefined]. *)
Fixpoint get (o : list (string * Z)) (key : string) : option Z :=
  match o with
  | [] => None
  | (k, v) :: o' => if (k =? key)%string then Some v else get o' key
  end.

(** The guard of the [keydown] listener. *)
Definition recognized (key : string) : bool :=
  (key =? "r")%string || (key =? "g")%string ||
  (key =? "b")%string || (key =? "w")%string.

(** The [keydown] listener, as a function of [e.key] and the current
    [edge]: [if (...) { edge = indexCoord[e.key]; }].  Under the guard
    the property is always there. *)
Definition keydown (key : string) (edge : Z) : Z :=
  if recognized key then
    match get indexCoord key with
    | Some v => v
    | None => edge
    end
  else edge.

(** [rotation -= 2; if (rotation < -360) { rotation = 0; }]. *)
Definition nextRotation (rotation : Z) : Z :=
  let rotation := (rotation - 2)%Z in
  if (rotation <? -360)%Z then 0%Z else rotation.

(** The mutable state: the global [edge], the [rotation] captured by the
    [runanimation] closure, and the canvas context. *)
Record State : Type := mkState
  { edge : Z; rotation : Z; ctx : Context2D }.

(** [var edge = 0], [var rotation = 0] and a context just obtained. *)
Definition initial : State := mkState 0 0 fresh.

(** What the event loop delivers: a key press, or the animation frame
    that [requestAnimationFrame(runanimation)] asked for.  Each handler
    runs to completion before the next event. *)
Inductive event : Type :=
  | KeyDown (key : string)
  | AnimationFrame.

Section Loop.

(** The canvas size read by [mainEntrance]. *)
Variables w h : R.

(** One call of the [runanimation] closure. *)
Definition runanimation (s : State) : option State :=
  match draw w h (edge s) (ctx s) (IZR (rotation s)) with
  | Some ctx' => Some (mkState (edge s) (nextRotation (rotation s)) ctx')
  | None => None
  end.

Definition step (s : State) (e : event) : option State :=
  match e with
  | KeyDown key => Some (mkState (keydown key (edge s)) (rotation s) (ctx s))
  | AnimationFrame => runanimation s
  end.

(** The state after the events [es], the earliest first. *)
Fixpoint run (es : list event) (s : State) : option State :=
  match es with
  | [] => Some s
  | e :: es' =>
      match step s e with
      | Some s' => run es' s'
      | None => None
      end
  end.

End Loop.

(** The number of animation frames among the events. *)
Fixpoint frames (es : list event) : nat :=
  match es with
  | [] => 0
  | AnimationFrame :: es' => S (frames es')
  | KeyDown _ :: es' => frames es'
  end.

(** The angle the closure passes to [draw] at tick [k], counting from 0:
    the value of [rotation] after [k] earlier ticks. *)
Fixpoint angleAt (k : nat) : Z :=
  match k with
  | O => 0%Z
  | S k' => nextRotation (angleAt k')
  end.

End Driver.

(** ** Entry point *)

Module Page.

Import Canvas Driver.

(** What [mainEntrance] reads of the [<canvas>] element: its [width] and
    [height] (unsigned integers) and what [getContext("2d")] returns,
    [None] for [null]. *)
Record HTMLCanvasElement : Type := mkCanvas
  { width : N; height : N; getContext2d : option Context2D }.

(** The globals [w] and [h]: [undefined] ([None]) until assigned. *)
Record Globals : Type := mkGlobals
  { w : option R; h : option R }.

(** How a call of [mainEntrance] ends: with an uncaught [TypeError], or
    normally, after the first call of the closure; [Returned] carries
    what that call gave. *)
Inductive completion : Type :=
  | TypeError
  | Returned (after : option State).

(** [function mainEntrance()], as a function of what
    [document.querySelector("#theCanvas")] finds ([None] for [null]), of
    the pivot index at that time and of the globals.

    With no element, [canvasElement.getContext] throws.  Otherwise [w]
    and [h] are assigned, the closure is built with [rotation = 0] and
    called; with a [null] context its call of [draw] throws at
    [ctx.fillStyle = ...]. *)
Definition mainEntrance (theCanvas : option HTMLCanvasElement)
    (edge : Z) (g : Globals) : Globals * completion :=
  match theCanvas with
  | None => (g, TypeError)
  | Some canvasElement =>
      let ctx := getContext2d canvasElement in
      let w := IZR (Z.of_N (width canvasElement)) in
      let h := IZR (Z.of_N (height canvasElement)) in
      let g := mkGlobals (Some w) (Some h) in
      match ctx with
      | None => (g, TypeError)
      | Some ctx => (g, Returned (runanimation w h (mkState edge 0 ctx)))
      end
  end.

End Page.

(** ** Derived notions used in the statements *)

(** The projected points of the six stored vertices, in order. *)
Definition corners (w h : R) : list point :=
  [ mapToViewport w h (-0.5) (-0.5) 5; mapToViewport w h 0.5 (-0.5) 5;
    mapToViewport w h 0.5 0.5 5; mapToViewport w h (-0.5) (-0.5) 5;
    mapToViewport w h 0.5 0.5 5; mapToViewport w h (-0.5) 0.5 5 ].

(** The pivot pixel point: the projected point of the vertex at index
    [edge], when there is one. *)
Definition pivotPoint (w h : R) (edge : Z) : option point :=
  if (edge <? 0)%Z then None else nth_error (corners w h) (Z.to_nat edge).

(** The matrix [m] of [draw] after its first loop. *)
Definition pivotTransform (w h : R) (edge : Z) (rotation : R) : option DOM.DOMMatrix :=
  match pivotPoint w h edge with
  | Some p => Some (pivotMatrix w h rotation (fst p) (snd p))
  | None => None
  end.

(** The subpaths that [rect(0, 0, w, h)] adds. *)
Definition background (w h : R) : list Canvas.subpath :=
  [ [(0, 0)]; [(0, 0); (0 + w, 0); (0 + w, 0 + h); (0, 0 + h)] ].

(** The keys the [keydown] listener tests for. *)
Definition recognizedKeys : list string :=
  [ "r"%string; "g"%string; "b"%string; "w"%string ].

(** The last key among the events that the listener recognizes, if any. *)
Fixpoint lastRecognized (es : list Driver.event) : option string :=
  match es with
  | [] => None
  | e :: es' =>
      match lastRecognized es' with
      | Some key => Some key
      | None =>
          match e with
          | Driver.KeyDown key => if Driver.recognized key then Some key else None
          | Driver.AnimationFrame => None
          end
      end
  end.

(** Settles the comparisons of concrete reals a goal branches on. *)
Ltac decide_reals :=
  repeat match goal with
         | |- context [Rle_dec ?a ?b] =>
             destruct (Rle_dec a b); try (exfalso; lra)
         | |- context [Rlt_dec ?a ?b] =>
             destruct (Rlt_dec a b); try (exfalso; lra)
         end.

(** ** Geometry store: facts *)

Example numPoints_is_6 : Geometry.numPoints = 6%Z.
Proof. reflexivity. Qed.

(** Every index within the array reads a stored vertex. *)
Lemma getVertex_in_range (i : Z) :
  (0 <= i < Geometry.numPoints)%Z ->
  exists x y, Geometry.getVertex i = (Some x, Some y) /\
              (x = 0.5 \/ x = -0.5) /\ (y = 0.5 \/ y = -0.5).
Proof.
  rewrite numPoints_is_6. intros Hi.
  assert (Hcases : (i = 0 \/ i = 1 \/ i = 2 \/ i = 3 \/ i = 4 \/ i = 5)%Z) by lia.
  destruct Hcases as [-> | [-> | [-> | [-> | [-> | ->]]]]];
    (do 2 eexists; split; [reflexivity | split; auto]).
Qed.

(** A negative index keeps a negative remainder and reads outside the
    array, unless the remainder is zero. *)
Lemma getVertex_negative (i : Z) :
  (i < 0)%Z -> Z.rem i Geometry.numPoints <> 0%Z ->
  Geometry.getVertex i = (None, None).
Proof.
  rewrite numPoints_is_6. intros Hneg Hrem.
  assert (Hr : (-6 < Z.rem i 6 <= 0)%Z)
    by (apply (Z.rem_bound_pos_neg i 6); lia).
  unfold Geometry.getVertex. rewrite numPoints_is_6.
  unfold Geometry.read.
  destruct (Z.ltb_spec (Z.rem i 6 * 2) 0); [| lia].
  destruct (Z.ltb_spec (Z.rem i 6 * 2 + 1) 0); [| lia].
  reflexivity.
Qed.

(** C2, as stated, fails twice: the wrap is modulo the six stored
    entries, so index 4 is not index 0; and [%] keeps the sign of a
    negative index, which then reads outside the array. *)
Lemma getVertex_modulo_4_counterexample :
  Geometry.getVertex 4 <> Geometry.getVertex (4 mod 4) /\
  Geometry.getVertex (-1) <> Geometry.getVertex ((-1) mod 4) /\
  Geometry.getVertex (-1) = (None, None).
Proof.
  split; [| split].
  - change (Geometry.getVertex 4) with (Some 0.5, Some 0.5).
    change (Geometry.getVertex (4 mod 4)) with (Some (-0.5), Some (-0.5)).
    intros H. injection H as H _. lra.
  - change (Geometry.getVertex (-1)) with (@None R, @None R).
    change (Geometry.getVertex ((-1) mod 4)) with (Some (-0.5), Some (-0.5)).
    discriminate.
  - reflexivity.
Qed.

(** C2 (amended): for every integer [i >= 0], however large,
    [getVertex i] is the vertex at [i mod numPoints], where [numPoints]
    is 6, the number of stored vertices, and both of its components are
    defined. *)
Theorem getVertex_wraps_modulo_numPoints (i : Z) :
  (0 <= i)%Z ->
  Geometry.numPoints = 6%Z /\
  Geometry.getVertex i = Geometry.getVertex (i mod Geometry.numPoints) /\
  exists x y, Geometry.getVertex i = (Some x, Some y).
Proof.
  intros Hi. split; [reflexivity |].
  assert (Hrem : Z.rem i Geometry.numPoints = (i mod Geometry.numPoints)%Z)
    by (apply Z.rem_mod_nonneg; [lia | reflexivity]).
  assert (Hm : (0 <= i mod Geometry.numPoints < Geometry.numPoints)%Z)
    by (apply Z.mod_pos_bound; reflexivity).
  assert (Heq : Geometry.getVertex i = Geometry.getVertex (i mod Geometry.numPoints)).
  { unfold Geometry.getVertex. rewrite Hrem.
    rewrite (Z.rem_mod_nonneg (i mod Geometry.numPoints)) by (lia || reflexivity).
    rewrite Z.mod_mod by discriminate. reflexivity. }
  split; [exact Heq |].
  destruct (getVertex_in_range _ Hm) as (x & y & Hxy & _).
  exists x, y. rewrite Heq. exact Hxy.
Qed.

(** The wrap at index 7, which reads vertex 1. *)
Lemma getVertex_wraps_witness :
  Geometry.numPoints = 6%Z /\
  Geometry.getVertex 7 = Geometry.getVertex (7 mod Geometry.numPoints) /\
  exists x y, Geometry.getVertex 7 = (Some x, Some y).
Proof.
  apply (getVertex_wraps_modulo_numPoints 7). lia.
Defined.

(** A negative multiple of [numPoints] has remainder zero and reads
    vertex 0. *)
Lemma getVertex_negative_multiple (i : Z) :
  Z.rem i Geometry.numPoints = 0%Z ->
  Geometry.getVertex i = Geometry.getVertex 0.
Proof.
  intros Hrem. unfold Geometry.getVertex. rewrite Hrem. reflexivity.
Qed.

(** ** Viewport mapper: facts *)






(** ** The renderer's transform: facts *)

Section TransformFacts.

Import DOM.

Variables w h : R.

(** What [m] does to a point: it turns [p] about [(w - x, h - y)]. *)
Lemma pivotMatrix_transform (rotation x y : R) (p : point) :
  matrixTransform p (Some (pivotMatrix w h rotation x y)) =
  let t := rotation * PI / 180 in
  ((w - x) + (cos t * (fst p - (w - x)) - sin t * (snd p - (h - y))),
   (h - y) + (sin t * (fst p - (w - x)) + cos t * (snd p - (h - y)))).
Proof.
  unfold matrixTransform, pivotMatrix, translate, rotate, multiply, identity.
  cbn [m11 m12 m21 m22 m41 m42]. cbv zeta. f_equal; ring.
Qed.

(** The centre of the rotation is [(w - x, h - y)], whatever the angle. *)
Lemma pivotMatrix_fixes_mirrored_point (rotation x y : R) :
  matrixTransform (w - x, h - y) (Some (pivotMatrix w h rotation x y)) =
  (w - x, h - y).
Proof.
  rewrite pivotMatrix_transform. cbv zeta. cbn [fst snd]. f_equal; ring.
Qed.

(** With a zero angle [m] is the identity. *)
Lemma pivotMatrix_zero (x y : R) (p : point) :
  matrixTransform p (Some (pivotMatrix w h 0 x y)) = p.
Proof.
  rewrite pivotMatrix_transform. cbv zeta.
  replace (0 * PI / 180) with 0 by lra.
  rewrite cos_0, sin_0. destruct p as [px py]. cbn [fst snd]. f_equal; ring.
Qed.

(** An [undefined] matrix is the identity too. *)
Lemma matrixTransform_undefined (p : point) : matrixTransform p None = p.
Proof.
  unfold matrixTransform, identity. cbn [m11 m12 m21 m22 m41 m42].
  destruct p as [px py]. cbn [fst snd]. f_equal; ring.
Qed.

(** A half turn maps [p] to its mirror image through [(w - x, h - y)]. *)
Lemma pivotMatrix_half_turn (x y : R) (p : point) :
  matrixTransform p (Some (pivotMatrix w h (-180) x y)) =
  (2 * (w - x) - fst p, 2 * (h - y) - snd p).
Proof.
  rewrite pivotMatrix_transform. cbv zeta.
  replace (-180 * PI / 180) with (- PI) by lra.
  rewrite cos_neg, sin_neg, cos_PI, sin_PI. f_equal; ring.
Qed.

(** The first loop of [draw], evaluated. *)
Lemma projectAll_indices (edge : Z) (rotation : R) :
  projectAll w h edge rotation indices [] None =
  Some (corners w h, pivotTransform w h edge rotation).
Proof.
  transitivity
    (Some (corners w h,
           if (5 =? edge)%Z then pivotTransform w h 5 rotation
           else if (4 =? edge)%Z then pivotTransform w h 4 rotation
           else if (3 =? edge)%Z then pivotTransform w h 3 rotation
           else if (2 =? edge)%Z then pivotTransform w h 2 rotation
           else if (1 =? edge)%Z then pivotTransform w h 1 rotation
           else if (0 =? edge)%Z then pivotTransform w h 0 rotation
           else None)); [reflexivity |].
  do 2 f_equal.
  repeat match goal with
         | |- context [(?k =? edge)%Z] =>
             destruct (Z.eqb_spec k edge); [subst edge; reflexivity |]
         end.
  unfold pivotTransform, pivotPoint.
  destruct (Z.ltb_spec edge 0); [reflexivity |].
  destruct (nth_error (corners w h) (Z.to_nat edge)) eqn:Hnth; [| reflexivity].
  assert (Hlen : (Z.to_nat edge < List.length (corners w h))%nat)
    by (apply nth_error_Some; rewrite Hnth; discriminate).
  cbn [corners List.length] in Hlen. lia.
Qed.

(** The points [draw] traces are the projected points, each transformed
    by the pivot's matrix. *)
Lemma drawnPoints_eq (edge : Z) (rotation : R) :
  drawnPoints w h edge rotation =
  Some (map (fun p => matrixTransform p (pivotTransform w h edge rotation))
            (corners w h)).
Proof. unfold drawnPoints. rewrite projectAll_indices. reflexivity. Qed.

(** The plain projection of all the vertices. *)
Lemma projected_indices : projected w h indices = Some (corners w h).
Proof. reflexivity. Qed.

(** The pivot's matrix is defined exactly when [edge] is the index of a
    stored vertex. *)
Lemma pivotTransform_defined (edge : Z) (rotation : R) :
  (0 <= edge < Geometry.numPoints)%Z ->
  exists p, pivotPoint w h edge = Some p /\
            project w h edge = Some p /\
            pivotTransform w h edge rotation =
              Some (pivotMatrix w h rotation (fst p) (snd p)).
Proof.
  rewrite numPoints_is_6. intros Hi.
  assert (Hcases : (edge = 0 \/ edge = 1 \/ edge = 2 \/ edge = 3 \/ edge = 4 \/ edge = 5)%Z) by lia.
  destruct Hcases as [-> | [-> | [-> | [-> | [-> | ->]]]]];
    (eexists; split; [reflexivity | split; reflexivity]).
Qed.

(** [draw] always returns: it repaints, in this order, the background
    rectangle added to whatever the current path held, and then the
    traced polygon, which it leaves as the current path. *)
Lemma draw_returns (edge : Z) (ctx : Canvas.Context2D) (rotation : R) :
  exists q qs,
    drawnPoints w h edge rotation = Some (q :: qs) /\
    draw w h edge ctx rotation =
      Some (Canvas.mkContext teal [[q]; q :: qs]
              ((teal, [[q]; q :: qs])
               :: (white, background w h ++ Canvas.path ctx)
               :: Canvas.painted ctx)).
Proof.
  rewrite drawnPoints_eq. unfold draw. rewrite projectAll_indices.
  do 2 eexists. split; reflexivity.
Qed.

End TransformFacts.

(** The projected points on a 10 by 10 canvas. *)
Lemma corners_10_10 :
  corners 10 10 = [(4, 6); (6, 6); (6, 4); (4, 6); (6, 4); (4, 4)].
Proof.
  unfold corners, mapToViewport.
  repeat (f_equal; try lra).
Qed.

(** With a zero angle the matrix of any pivot index, defined or not,
    leaves every point where it is. *)
Lemma zero_rotation_fixes_all (w h : R) (edge : Z) (p : point) :
  DOM.matrixTransform p (pivotTransform w h edge 0) = p.
Proof.
  unfold pivotTransform. destruct (pivotPoint w h edge) as [q |].
  - apply pivotMatrix_zero.
  - apply matrixTransform_undefined.
Qed.

(** The points traced on a 10 by 10 canvas with pivot index 0. *)
Lemma drawnPoints_10_10_zero :
  drawnPoints 10 10 0 0 = Some [(4, 6); (6, 6); (6, 4); (4, 6); (6, 4); (4, 4)].
Proof.
  rewrite drawnPoints_eq. f_equal.
  rewrite <- corners_10_10. rewrite <- (map_id (corners 10 10)) at 2.
  apply map_ext. intros p. apply zero_rotation_fixes_all.
Qed.

(** The same after a half turn: the square is turned about (6, 4). *)
Lemma drawnPoints_10_10_half_turn :
  drawnPoints 10 10 0 (-180) =
  Some [(8, 2); (6, 2); (6, 4); (8, 2); (6, 4); (8, 4)].
Proof.
  rewrite drawnPoints_eq. unfold pivotTransform, pivotPoint.
  rewrite corners_10_10. cbn [Z.ltb Z.compare Z.to_nat nth_error map fst snd].
  rewrite !pivotMatrix_half_turn. cbn [fst snd].
  repeat (f_equal; try lra).
Qed.

(** A half turn moves the pivot's pixel point whenever the canvas has a
    width: the centre of the rotation is another point. *)
Lemma half_turn_moves_pivot (w h : R) (edge : Z) :
  0 < w -> (0 <= edge < Geometry.numPoints)%Z ->
  exists p, pivotPoint w h edge = Some p /\
            DOM.matrixTransform p (pivotTransform w h edge (-180)) <> p.
Proof.
  intros Hw Hi.
  destruct (pivotTransform_defined w h edge (-180) Hi) as (p & Hp & _ & Hm).
  exists p. split; [exact Hp |].
  rewrite Hm, pivotMatrix_half_turn. intros Heq.
  assert (Hx : 2 * (w - fst p) - fst p = fst p) by (rewrite <- Heq at 3; reflexivity).
  assert (Hfst : fst p = 0.4 * w \/ fst p = 0.6 * w).
  { rewrite numPoints_is_6 in Hi.
    assert (Hcases : (edge = 0 \/ edge = 1 \/ edge = 2 \/ edge = 3 \/ edge = 4 \/ edge = 5)%Z) by lia.
    destruct Hcases as [-> | [-> | [-> | [-> | [-> | ->]]]]];
      injection Hp as <-; unfold mapToViewport; cbn [fst]; lra. }
  destruct Hfst as [Hf | Hf]; rewrite Hf in Hx; lra.
Qed.

(** C1 at a failing input: on a 10 by 10 canvas with pivot index 0 and
    the angle -180 that the driver passes at tick 90, the pivot's pixel
    point is (4, 6), the composed transform sends it to (8, 2), and the
    polygon is traced from there; the point that stays fixed is (6, 4). *)
Theorem pivot_moved_by_composed_transform :
  pivotPoint 10 10 0 = Some (4, 6) /\
  pivotTransform 10 10 0 (-180) = Some (pivotMatrix 10 10 (-180) 4 6) /\
  DOM.matrixTransform (4, 6) (Some (pivotMatrix 10 10 (-180) 4 6)) = (8, 2) /\
  DOM.matrixTransform (6, 4) (Some (pivotMatrix 10 10 (-180) 4 6)) = (6, 4) /\
  drawnPoints 10 10 0 (-180) =
    Some [(8, 2); (6, 2); (6, 4); (8, 2); (6, 4); (8, 4)].
Proof.
  assert (Hp : pivotPoint 10 10 0 = Some (4, 6)).
  { unfold pivotPoint. rewrite corners_10_10. reflexivity. }
  assert (Hm : pivotTransform 10 10 0 (-180) = Some (pivotMatrix 10 10 (-180) 4 6)).
  { unfold pivotTransform. rewrite Hp. reflexivity. }
  split; [exact Hp | split; [exact Hm |]].
  rewrite !pivotMatrix_half_turn. cbn [fst snd].
  split; [f_equal; lra | split; [f_equal; lra |]].
  apply drawnPoints_10_10_half_turn.
Qed.

(** C5: with a zero angle, whatever the pivot index, [draw] traces
    exactly the plain [mapToViewport] output of the stored vertices, all
    of them, in order, and fills that polygon. *)
Theorem zero_rotation_draws_projected_points
    (w h : R) (edge : Z) (ctx : Canvas.Context2D) :
  exists q qs,
    projected w h indices = Some (q :: qs) /\
    List.length (q :: qs) = Z.to_nat Geometry.numPoints /\
    drawnPoints w h edge 0 = projected w h indices /\
    option_map Canvas.path (draw w h edge ctx 0) = Some [[q]; q :: qs].
Proof.
  assert (Hd : drawnPoints w h edge 0 = Some (corners w h)).
  { rewrite drawnPoints_eq. f_equal.
    rewrite <- (map_id (corners w h)) at 2.
    apply map_ext. intros p. apply zero_rotation_fixes_all. }
  destruct (draw_returns w h edge ctx 0) as (q & qs & Hq & Hdraw).
  exists q, qs. rewrite projected_indices.
  rewrite Hd in Hq.
  assert (Hc : corners w h = q :: qs) by congruence.
  clear Hq. rename Hc into Hq.
  repeat split.
  - f_equal. exact Hq.
  - rewrite <- Hq. reflexivity.
  - exact Hd.
  - rewrite Hdraw. reflexivity.
Qed.

(** ** Pivot selector: facts *)

Section KeyFacts.

Import Driver.

(** The guard of the listener holds for the four keys only. *)
Lemma recognized_iff (key : string) :
  recognized key = true <-> In key recognizedKeys.
Proof.
  unfold recognized, recognizedKeys. cbn [In].
  rewrite !orb_true_iff, !String.eqb_eq.
  intuition congruence.
Qed.

Lemma keydown_unrecognized (key : string) (e : Z) :
  ~ In key recognizedKeys -> keydown key e = e.
Proof.
  intros Hnot. unfold keydown.
  destruct (recognized key) eqn:Hrec; [| reflexivity].
  apply recognized_iff in Hrec. contradiction.
Qed.

Lemma keydown_recognized (key : string) (e : Z) :
  In key recognizedKeys ->
  get indexCoord key = Some (keydown key e) /\ (0 <= keydown key e <= 3)%Z.
Proof.
  unfold recognizedKeys. cbn [In].
  intros [<- | [<- | [<- | [<- | []]]]]; (split; [reflexivity | cbv; split; discriminate]).
Qed.

Lemma keydown_keeps_range (key : string) (e : Z) :
  (0 <= e <= 3)%Z -> (0 <= keydown key e <= 3)%Z.
Proof.
  intros He. destruct (in_dec string_dec key recognizedKeys) as [Hin | Hout].
  - apply keydown_recognized. exact Hin.
  - rewrite keydown_unrecognized by exact Hout. exact He.
Qed.

End KeyFacts.

(** C6: a key outside the four recognized ones leaves the pivot index
    (and the rest of the state) as it was and raises nothing; each of
    ["r"], ["g"], ["b"], ["w"] sets the index to 0, 1, 2, 3 whatever it
    was before; so the four keys in a row give 0, 1, 2, 3. *)
Theorem keydown_sets_mapped_index_or_nothing (w h : R) (s : Driver.State) :
  (forall key, ~ In key recognizedKeys ->
     Driver.step w h s (Driver.KeyDown key) = Some s) /\
  (forall key, exists e,
     Driver.step w h s (Driver.KeyDown key) =
       Some (Driver.mkState e (Driver.rotation s) (Driver.ctx s))) /\
  Driver.keydown "r" (Driver.edge s) = 0%Z /\
  Driver.keydown "g" (Driver.edge s) = 1%Z /\
  Driver.keydown "b" (Driver.edge s) = 2%Z /\
  Driver.keydown "w" (Driver.edge s) = 3%Z /\
  (exists s1 s2 s3 s4,
     Driver.run w h [Driver.KeyDown "r"] s = Some s1 /\ Driver.edge s1 = 0%Z /\
     Driver.run w h [Driver.KeyDown "g"] s1 = Some s2 /\ Driver.edge s2 = 1%Z /\
     Driver.run w h [Driver.KeyDown "b"] s2 = Some s3 /\ Driver.edge s3 = 2%Z /\
     Driver.run w h [Driver.KeyDown "w"] s3 = Some s4 /\ Driver.edge s4 = 3%Z).
Proof.
  split; [| split].
  - intros key Hout. cbn [Driver.step].
    rewrite keydown_unrecognized by exact Hout. destruct s; reflexivity.
  - intros key. eexists. reflexivity.
  - repeat split; try reflexivity.
    do 4 eexists. repeat split; reflexivity.
Qed.

(** The key ["Enter"] changes nothing. *)
Lemma keydown_witness :
  Driver.step 300 150 Driver.initial (Driver.KeyDown "Enter") = Some Driver.initial.
Proof.
  apply (proj1 (keydown_sets_mapped_index_or_nothing 300 150 Driver.initial)).
  unfold recognizedKeys. cbn [In].
  intros [H | [H | [H | [H | []]]]]; discriminate H.
Defined.

(** ** Animation driver: facts *)

Section DriverFacts.

Import Driver.

Variables w h : R.

(** The update keeps the angle within [-360, 0]. *)
Lemma nextRotation_range (r : Z) :
  (-360 <= r <= 0)%Z -> (-360 <= nextRotation r <= 0)%Z.
Proof.
  intros Hr. unfold nextRotation.
  destruct (Z.ltb_spec (r - 2) (-360)); lia.
Qed.

(** So does every rendered angle. *)
Lemma angleAt_range (k : nat) : (-360 <= angleAt k <= 0)%Z.
Proof.
  induction k as [| k IH]; cbn [angleAt].
  - lia.
  - apply nextRotation_range. exact IH.
Qed.

(** Up to tick 180 the guard does not fire. *)
Lemma angleAt_linear (k : nat) :
  (k <= 180)%nat -> angleAt k = (-2 * Z.of_nat k)%Z.
Proof.
  induction k as [| k IH]; intros Hk.
  - reflexivity.
  - cbn [angleAt]. rewrite IH by lia. unfold nextRotation.
    destruct (Z.ltb_spec (-2 * Z.of_nat k - 2) (-360)); lia.
Qed.

(** A frame always completes: [draw] returns, and the closure then
    updates [rotation]; [edge] is not touched. *)
Lemma runanimation_returns (s : State) :
  exists c, runanimation w h s =
            Some (mkState (edge s) (nextRotation (rotation s)) c).
Proof.
  unfold runanimation.
  destruct (draw_returns w h (edge s) (ctx s) (IZR (rotation s)))
    as (q & qs & _ & ->).
  eexists. reflexivity.
Qed.

(** Every sequence of events runs to completion.  From a state whose
    [rotation] is the angle of tick [k], the state reached has the angle
    of tick [k + frames es]; a pivot index within 0..3 stays there. *)
Lemma run_returns (es : list event) :
  forall (s : State) (k : nat),
    rotation s = angleAt k ->
    exists s', run w h es s = Some s' /\
               rotation s' = angleAt (k + frames es) /\
               ((0 <= edge s <= 3)%Z -> (0 <= edge s' <= 3)%Z).
Proof.
  induction es as [| e es IH]; intros s k Hk.
  - exists s. cbn [run frames]. rewrite Nat.add_0_r. auto.
  - destruct e as [key |].
    + destruct (IH (mkState (keydown key (edge s)) (rotation s) (ctx s)) k Hk)
        as (s' & Hrun & Hrot & Hedge).
      exists s'. cbn [run step frames].
      split; [exact Hrun | split; [exact Hrot |]].
      intros He. apply Hedge. cbn [edge]. apply keydown_keeps_range. exact He.
    + destruct (runanimation_returns s) as (c & Hc).
      destruct (IH (mkState (edge s) (nextRotation (rotation s)) c) (S k))
        as (s' & Hrun & Hrot & Hedge).
      { cbn [rotation angleAt]. rewrite Hk. reflexivity. }
      exists s'. cbn [run step frames]. rewrite Hc.
      rewrite Nat.add_succ_r.
      split; [exact Hrun | split; [exact Hrot | exact Hedge]].
Qed.

(** What the closure passes to [draw] is the [rotation] of the state it
    starts from. *)
Lemma runanimation_renders (s s' : State) :
  runanimation w h s = Some s' ->
  draw w h (edge s) (ctx s) (IZR (rotation s)) = Some (ctx s') /\
  rotation s' = nextRotation (rotation s) /\
  edge s' = edge s.
Proof.
  unfold runanimation.
  destruct (draw w h (edge s) (ctx s) (IZR (rotation s))) as [c |];
    [| discriminate].
  intros Hs. injection Hs as <-. auto.
Qed.

(** From the initial state. *)
Lemma run_from_initial (es : list event) :
  exists s, run w h es initial = Some s /\
            rotation s = angleAt (frames es) /\
            (0 <= edge s <= 3)%Z.
Proof.
  destruct (run_returns es initial 0 eq_refl) as (s & Hrun & Hrot & Hedge).
  exists s. split; [exact Hrun | split; [exact Hrot |]].
  apply Hedge. cbn [edge initial]. lia.
Qed.

End DriverFacts.

(** C3, as stated, fails at tick 180: after 180 frames [rotation] holds
    -360, the guard [rotation < -360] has not fired, and that value is
    what the next call of the closure passes to [draw]. *)
Lemma rendered_angle_reaches_minus_360 :
  exists s,
    Driver.run 300 150 (repeat Driver.AnimationFrame 180) Driver.initial = Some s /\
    Driver.rotation s = (-360)%Z /\
    ~ (-360 < Driver.rotation s <= 0)%Z.
Proof.
  destruct (run_from_initial 300 150 (repeat Driver.AnimationFrame 180))
    as (s & Hrun & Hrot & _).
  exists s. split; [exact Hrun |].
  assert (Hs : Driver.rotation s = (-360)%Z).
  { rewrite Hrot. vm_compute. reflexivity. }
  split; [exact Hs | lia].
Qed.

(** C3 (amended): at every tick, whatever keys were pressed in between,
    the angle passed to [draw] lies in the closed interval [-360, 0]. *)
Theorem rendered_angle_in_closed_range (w h : R) (es : list Driver.event) :
  exists s,
    Driver.run w h es Driver.initial = Some s /\
    Driver.rotation s = Driver.angleAt (Driver.frames es) /\
    (-360 <= Driver.rotation s <= 0)%Z.
Proof.
  destruct (run_from_initial w h es) as (s & Hrun & Hrot & _).
  exists s. split; [exact Hrun | split; [exact Hrot |]].
  rewrite Hrot. apply angleAt_range.
Qed.

(** C4: the angle passed to [draw] at tick [k] is [-2 * k] for every
    [k] up to 180, so it is exactly -360 at tick 180; the update after
    that tick assigns 0 (where a remainder by 360 would leave -2), and
    tick 181 renders 0 again. *)
Theorem rotation_sequence (w h : R) (es : list Driver.event) :
  exists s,
    Driver.run w h es Driver.initial = Some s /\
    ((Driver.frames es <= 180)%nat ->
       Driver.rotation s = (-2 * Z.of_nat (Driver.frames es))%Z) /\
    (Driver.frames es = 180%nat ->
       Driver.rotation s = (-360)%Z /\
       Driver.nextRotation (Driver.rotation s) = 0%Z /\
       Z.rem (Driver.rotation s - 2) 360 = (-2)%Z) /\
    (Driver.frames es = 181%nat -> Driver.rotation s = 0%Z).
Proof.
  destruct (run_from_initial w h es) as (s & Hrun & Hrot & _).
  exists s. split; [exact Hrun |].
  split; [| split].
  - intros Hk. rewrite Hrot. apply angleAt_linear. exact Hk.
  - intros Hk. rewrite Hrot, Hk.
    repeat split; vm_compute; reflexivity.
  - intros Hk. rewrite Hrot, Hk. vm_compute. reflexivity.
Qed.

(** Two frames with a key press in between: the angle is -4. *)
Lemma rotation_sequence_witness :
  exists s,
    Driver.run 300 150
      [Driver.AnimationFrame; Driver.KeyDown "g"; Driver.AnimationFrame]
      Driver.initial = Some s /\
    Driver.rotation s = (-4)%Z.
Proof.
  destruct (rotation_sequence 300 150
              [Driver.AnimationFrame; Driver.KeyDown "g"; Driver.AnimationFrame])
    as (s & Hrun & Hlin & _).
  exists s. split; [exact Hrun |].
  apply Hlin. cbn [Driver.frames]. lia.
Defined.

(** C7: the pivot index starts at 0 and, after any sequence of key
    presses and frames, is one of 0, 1, 2, 3; these are indices of
    stored vertices, so on every frame the first loop of [draw] reaches
    [i == edge] and assigns the matrix [m]. *)
Theorem pivot_index_always_valid (w h : R) (es : list Driver.event) :
  Driver.edge Driver.initial = 0%Z /\
  exists s,
    Driver.run w h es Driver.initial = Some s /\
    In (Driver.edge s) [0; 1; 2; 3]%Z /\
    (0 <= Driver.edge s < Geometry.numPoints)%Z /\
    exists p,
      project w h (Driver.edge s) = Some p /\
      forall rotation,
        projectAll w h (Driver.edge s) rotation indices [] None =
        Some (corners w h, Some (pivotMatrix w h rotation (fst p) (snd p))).
Proof.
  split; [reflexivity |].
  destruct (run_from_initial w h es) as (s & Hrun & _ & Hedge).
  exists s. split; [exact Hrun |].
  assert (Hvalid : (0 <= Driver.edge s < Geometry.numPoints)%Z)
    by (rewrite numPoints_is_6; lia).
  split; [| split; [exact Hvalid |]].
  - cbn [In]. lia.
  - destruct (pivotTransform_defined w h (Driver.edge s) 0 Hvalid)
      as (p & Hp & Hproj & _).
    exists p. split; [exact Hproj |].
    intros rotation. rewrite projectAll_indices.
    unfold pivotTransform. rewrite Hp. reflexivity.
Qed.

(** C10: twelve numbers, six vertices, are stored, and entries 0 and 3
    are both (-0.5, -0.5); so the keys ["r"] (index 0) and ["w"] (index 3)
    select the same pivot point and [draw] does the same for both, at
    every angle and on every context; and no sequence of events makes
    the vertex (-0.5, 0.5), stored at index 5 only, the pivot. *)
Theorem duplicate_vertex_same_pivot (w h : R) :
  (Geometry.length Geometry.vertices = 12%Z /\ Geometry.numPoints = 6%Z) /\
  (Geometry.getVertex 0 = (Some (-0.5), Some (-0.5)) /\
   Geometry.getVertex 3 = (Some (-0.5), Some (-0.5)) /\
   Geometry.getVertex 5 = (Some (-0.5), Some 0.5)) /\
  (forall e, Driver.keydown "r" e = 0%Z /\ Driver.keydown "w" e = 3%Z) /\
  pivotPoint w h 0 = pivotPoint w h 3 /\
  (forall ctx rotation, draw w h 0 ctx rotation = draw w h 3 ctx rotation) /\
  (forall es, exists s,
     Driver.run w h es Driver.initial = Some s /\
     Driver.edge s <> 5%Z /\
     Geometry.getVertex (Driver.edge s) <> (Some (-0.5), Some 0.5)).
Proof.
  split; [split; reflexivity |].
  split; [repeat split; reflexivity |].
  split; [intros e; split; reflexivity |].
  split; [reflexivity |].
  split; [intros ctx rotation; reflexivity |].
  intros es. destruct (run_from_initial w h es) as (s & Hrun & _ & Hedge).
  exists s. split; [exact Hrun |]. split; [lia |].
  assert (Hcases : (Driver.edge s = 0 \/ Driver.edge s = 1 \/
                    Driver.edge s = 2 \/ Driver.edge s = 3)%Z) by lia.
  destruct Hcases as [-> | [-> | [-> | ->]]];
    intros Heq; injection Heq; intros; lra.
Qed.

(** ** What a frame leaves on the surface *)

Section SurfaceFacts.

Import Canvas.

(** [draw_returns], for traced points that are known. *)
Lemma draw_eq (w h : R) (edge : Z) (ctx : Context2D) (rotation : R) q qs :
  drawnPoints w h edge rotation = Some (q :: qs) ->
  draw w h edge ctx rotation =
    Some (mkContext teal [[q]; q :: qs]
            ((teal, [[q]; q :: qs])
             :: (white, background w h ++ path ctx)
             :: painted ctx)).
Proof.
  intros Hq.
  destruct (draw_returns w h edge ctx rotation) as (q' & qs' & Hq' & Hdraw).
  rewrite Hq in Hq'. injection Hq' as <- <-. exact Hdraw.
Qed.

(** Winding numbers add up over the subpaths of a path. *)
Lemma path_winding_app (p : point) (pth1 pth2 : list subpath) :
  path_winding p (pth1 ++ pth2) = (path_winding p pth1 + path_winding p pth2)%Z.
Proof.
  induction pth1 as [| sp pth1 IH]; cbn [path_winding app].
  - reflexivity.
  - rewrite IH. lia.
Qed.

(** From a context whose current path is empty, as a fresh one is, two
    calls of [draw] in a row with the same arguments leave the same
    colour at every sampled point as one call. *)
Lemma draw_twice_from_empty_path
    (w h : R) (edge : Z) (rotation : R) (ctx c1 c2 : Context2D) :
  path ctx = [] ->
  draw w h edge ctx rotation = Some c1 ->
  draw w h edge c1 rotation = Some c2 ->
  forall p, pixel c2 p = pixel c1 p.
Proof.
  intros Hempty H1 H2 p.
  destruct (draw_returns w h edge ctx rotation) as (q & qs & Hq & Hd1).
  rewrite (draw_eq w h edge c1 rotation q qs Hq) in H2.
  rewrite Hd1 in H1. injection H1 as <-. injection H2 as <-.
  unfold pixel. cbn [painted path colour].
  destruct (inside p [[q]; q :: qs]) eqn:Hin; [reflexivity |].
  assert (Hsame : inside p (background w h ++ [[q]; q :: qs]) =
                  inside p (background w h ++ path ctx)).
  { unfold inside in *. rewrite !path_winding_app, Hempty.
    apply negb_false_iff, Z.eqb_eq in Hin. rewrite Hin. reflexivity. }
  cbn [background app] in Hsame |- *. rewrite Hsame.
  match goal with |- context [inside p ?pth] => destruct (inside p pth) end;
    reflexivity.
Qed.

End SurfaceFacts.

Section Trail.

Import Canvas.

(** A subpath of one point winds about nothing. *)
Lemma winding_single (p a : point) : winding p [a] = 0%Z.
Proof.
  unfold winding, edges, crossing.
  destruct (Rle_dec (snd a) (snd p)) as [Hle | Hnle].
  - destruct (Rlt_dec (snd p) (snd a)); [exfalso; lra | reflexivity].
  - destruct (Rle_dec (snd a) (snd p)); [contradiction | reflexivity].
Qed.

(** Winding numbers about the centre (7.5, 3.5) of the pixel in column
    7, row 3: the background rectangle winds once about it. *)
Lemma winding_background :
  path_winding (7.5, 3.5) (background 10 10) = 1%Z.
Proof.
  unfold background. cbn [path_winding]. rewrite winding_single.
  unfold winding, edges, crossing, isLeft. cbn [fst snd].
  decide_reals. reflexivity.
Qed.

(** The polygon of angle 0 does not contain it. *)
Lemma winding_square_at_zero :
  path_winding (7.5, 3.5)
    [[(4, 6)]; [(4, 6); (6, 6); (6, 4); (4, 6); (6, 4); (4, 4)]] = 0%Z.
Proof.
  cbn [path_winding]. rewrite winding_single.
  unfold winding, edges, crossing, isLeft. cbn [fst snd].
  decide_reals. reflexivity.
Qed.

(** The polygon of angle -180 winds once about it, the other way. *)
Lemma winding_square_at_half_turn :
  path_winding (7.5, 3.5)
    [[(8, 2)]; [(8, 2); (6, 2); (6, 4); (8, 2); (6, 4); (8, 4)]] = (-1)%Z.
Proof.
  cbn [path_winding]. rewrite winding_single.
  unfold winding, edges, crossing, isLeft. cbn [fst snd].
  decide_reals. reflexivity.
Qed.

End Trail.

(** C9 at a failing input: a 10 by 10 canvas, pivot index 0, and a
    context on which the frame of tick 90 (angle -180) has just been
    drawn.  [draw] is then called twice in a row with angle 0.  The
    first call adds the background rectangle to the path that still
    holds the polygon of the frame before, which winds the other way,
    so the white fill leaves that polygon out: the pixel centred at
    (7.5, 3.5), inside the old polygon and outside the new one, stays
    teal.  The second call finds the new polygon in the path instead and
    paints that pixel white.  On a fresh context one call already paints
    it white. *)
Theorem draw_twice_differs_after_another_frame :
  exists c1 c2 c3 d,
    draw 10 10 0 Canvas.fresh (-180) = Some c1 /\
    draw 10 10 0 c1 0 = Some c2 /\
    draw 10 10 0 c2 0 = Some c3 /\
    Canvas.pixel c2 (7.5, 3.5) = Some teal /\
    Canvas.pixel c3 (7.5, 3.5) = Some white /\
    draw 10 10 0 Canvas.fresh 0 = Some d /\
    Canvas.pixel d (7.5, 3.5) = Some white.
Proof.
  do 4 eexists.
  split; [apply draw_eq, drawnPoints_10_10_half_turn |].
  split; [apply draw_eq, drawnPoints_10_10_zero |].
  split; [apply draw_eq, drawnPoints_10_10_zero |].
  pose proof winding_background as Hb.
  pose proof winding_square_at_zero as H0.
  pose proof winding_square_at_half_turn as H180.
  unfold Canvas.pixel.
  cbn [Canvas.painted Canvas.path Canvas.colour Canvas.fresh].
  unfold Canvas.inside.
  rewrite !path_winding_app.
  unfold Canvas.subpath, point in *.
  rewrite Hb, H0, H180.
  split; [reflexivity |].
  split; [reflexivity |].
  split; [apply draw_eq, drawnPoints_10_10_zero |].
  cbn [Canvas.painted Canvas.path Canvas.colour Canvas.fresh].
  unfold Canvas.inside.
  rewrite !path_winding_app.
  unfold Canvas.subpath, point in *.
  rewrite Hb, H0.
  reflexivity.
Qed.

(** * Further properties of the code *)

(** ** [getVertex] on every integer *)

(** X1: [getVertex] never fails and is never half defined: both
    components are defined, each 0.5 or -0.5, when [i >= 0] or [i] is a
    multiple of [numPoints]; for every other [i], that is, a negative
    [i] that is no multiple of [numPoints], both are [undefined]. *)
Theorem getVertex_defined_or_undefined (i : Z) :
  ((0 <= i)%Z \/ Z.rem i Geometry.numPoints = 0%Z ->
     exists x y, Geometry.getVertex i = (Some x, Some y) /\
                 (x = 0.5 \/ x = -0.5) /\ (y = 0.5 \/ y = -0.5)) /\
  (~ ((0 <= i)%Z \/ Z.rem i Geometry.numPoints = 0%Z) ->
     Geometry.getVertex i = (None, None)).
Proof.
  split.
  - intros [Hi | Hrem].
    + assert (Hm : (0 <= i mod Geometry.numPoints < Geometry.numPoints)%Z)
        by (apply Z.mod_pos_bound; reflexivity).
      destruct (getVertex_in_range _ Hm) as (x & y & Hxy & Hx & Hy).
      exists x, y. split; [| split; assumption].
      rewrite <- Hxy. unfold Geometry.getVertex.
      rewrite (Z.rem_mod_nonneg i) by (lia || reflexivity).
      rewrite (Z.rem_mod_nonneg (i mod Geometry.numPoints)) by (lia || reflexivity).
      rewrite Z.mod_mod by discriminate. reflexivity.
    + rewrite (getVertex_negative_multiple i Hrem).
      exists (-0.5), (-0.5). split; [reflexivity | split; right; reflexivity].
  - intros Hnot. apply getVertex_negative; lia.
Qed.

(** Index 13 reads a stored vertex, index -12 too, index -7 nothing. *)
Lemma getVertex_defined_or_undefined_witness :
  (exists x y, Geometry.getVertex 13 = (Some x, Some y) /\
               (x = 0.5 \/ x = -0.5) /\ (y = 0.5 \/ y = -0.5)) /\
  (exists x y, Geometry.getVertex (-12) = (Some x, Some y) /\
               (x = 0.5 \/ x = -0.5) /\ (y = 0.5 \/ y = -0.5)) /\
  Geometry.getVertex (-7) = (None, None).
Proof.
  split; [| split].
  - apply (proj1 (getVertex_defined_or_undefined 13)). left. lia.
  - apply (proj1 (getVertex_defined_or_undefined (-12))). right. reflexivity.
  - apply (proj2 (getVertex_defined_or_undefined (-7))).
    intros [H | H]; [lia | vm_compute in H; discriminate H].
Defined.

(** ** Turning by the angles of the animation *)

Section MotionFacts.

Import DOM.

Variables w h : R.

(** A bound on a square bounds the number. *)
Lemma square_bound (x r : R) : x * x <= r * r -> 0 <= r -> - r <= x <= r.
Proof.
  intros Hx Hr. split.
  - destruct (Rle_dec (- r) x) as [H | H]; [exact H |].
    assert (0 < - r - x) by lra.
    assert (0 < (- r - x) * (- r - x + 2 * r))
      by (apply Rmult_lt_0_compat; lra).
    nra.
  - destruct (Rle_dec x r) as [H | H]; [exact H |].
    assert (0 < x - r) by lra.
    assert (0 < (x - r) * (x - r + 2 * r))
      by (apply Rmult_lt_0_compat; lra).
    nra.
Qed.

(** Sine and cosine of one angle. *)
Lemma cos_sin_unit (t : R) : cos t * cos t + sin t * sin t = 1.
Proof. pose proof (sin2_cos2 t) as H. unfold Rsqr in H. lra. Qed.

(** A turned vector is no longer than the vector. *)
Lemma turned_within (t u v r : R) :
  u * u + v * v <= r * r -> 0 <= r ->
  - r <= cos t * u - sin t * v <= r /\ - r <= sin t * u + cos t * v <= r.
Proof.
  intros Huv Hr.
  assert (H : (cos t * u - sin t * v) * (cos t * u - sin t * v) +
              (sin t * u + cos t * v) * (sin t * u + cos t * v) =
              u * u + v * v).
  { replace ((cos t * u - sin t * v) * (cos t * u - sin t * v) +
             (sin t * u + cos t * v) * (sin t * u + cos t * v))
      with ((cos t * cos t + sin t * sin t) * (u * u + v * v)) by ring.
    rewrite cos_sin_unit. ring. }
  pose proof (Rle_0_sqr (cos t * u - sin t * v)) as HA.
  pose proof (Rle_0_sqr (sin t * u + cos t * v)) as HB.
  unfold Rsqr in HA, HB.
  split; apply square_bound; lra.
Qed.

(** The angle -360 gives the matrix of the angle 0. *)
Lemma pivotTransform_minus_360 (edge : Z) :
  pivotTransform w h edge (-360) = pivotTransform w h edge 0.
Proof.
  unfold pivotTransform. destruct (pivotPoint w h edge) as [piv |]; [| reflexivity].
  f_equal. unfold pivotMatrix, rotate.
  replace (-360 * PI / 180) with (- (2 * PI)) by lra.
  replace (0 * PI / 180) with 0 by lra.
  rewrite cos_neg, sin_neg, cos_2PI, sin_2PI, cos_0, sin_0.
  rewrite !Ropp_0. reflexivity.
Qed.

(** X7: the frame of tick 180 is drawn at the angle -360 and the frame
    of tick 181 at the angle 0, and on every context the two calls of
    [draw] do the same and trace the same points: each cycle of the
    animation shows its starting position twice in a row. *)
Theorem full_turn_frame_repeats_start (edge : Z) (ctx : Canvas.Context2D) :
  Driver.angleAt 180 = (-360)%Z /\
  Driver.angleAt 181 = 0%Z /\
  drawnPoints w h edge (IZR (Driver.angleAt 180)) =
    drawnPoints w h edge (IZR (Driver.angleAt 181)) /\
  draw w h edge ctx (IZR (Driver.angleAt 180)) =
    draw w h edge ctx (IZR (Driver.angleAt 181)).
Proof.
  assert (H180 : Driver.angleAt 180 = (-360)%Z) by (vm_compute; reflexivity).
  assert (H181 : Driver.angleAt 181 = 0%Z) by (vm_compute; reflexivity).
  split; [exact H180 | split; [exact H181 |]].
  rewrite H180, H181. split.
  - rewrite !drawnPoints_eq, pivotTransform_minus_360. reflexivity.
  - unfold draw. rewrite !projectAll_indices, pivotTransform_minus_360.
    reflexivity.
Qed.

End MotionFacts.

(** ** Where [draw] puts the polygon *)

Section PolygonFacts.

Import DOM.

Variables w h : R.

(** The context [draw] returns. *)
Lemma draw_shape (edge : Z) (ctx : Canvas.Context2D) (rotation : R) :
  exists ctx' q qs,
    draw w h edge ctx rotation = Some ctx' /\
    List.length (q :: qs) = Z.to_nat Geometry.numPoints /\
    Canvas.fillStyle ctx' = teal /\
    Canvas.path ctx' = [[q]; q :: qs] /\
    Canvas.painted ctx' =
      (teal, [[q]; q :: qs])
      :: (white, background w h ++ Canvas.path ctx)
      :: Canvas.painted ctx.
Proof.
  destruct (draw_returns w h edge ctx rotation) as (q & qs & Hq & Hdraw).
  eexists. exists q, qs. split; [exact Hdraw |].
  split.
  { rewrite drawnPoints_eq in Hq.
    assert (Hlen : List.length
                     (map (fun p => matrixTransform p (pivotTransform w h edge rotation))
                          (corners w h)) =
                   List.length (q :: qs)) by congruence.
    rewrite <- Hlen, length_map. reflexivity. }
  cbn [Canvas.fillStyle Canvas.path Canvas.painted].
  repeat (split; [reflexivity |]). reflexivity.
Qed.

(** X9: [draw] returns for every context, every pivot index, stored
    vertex or not, and every angle.  It makes exactly two fills on top
    of the earlier ones: white over the background rectangle together
    with whatever path the context held, then teal over the new path,
    which is a subpath of [numPoints] traced points and the one-point
    subpath [closePath] starts.  The fill style it found plays no part. *)
Theorem draw_makes_two_fills
    (edge : Z) (ctx : Canvas.Context2D) (rotation : R) (style : string) :
  exists ctx' q qs,
    draw w h edge ctx rotation = Some ctx' /\
    drawnPoints w h edge rotation = Some (q :: qs) /\
    List.length (q :: qs) = Z.to_nat Geometry.numPoints /\
    Canvas.fillStyle ctx' = teal /\
    Canvas.path ctx' = [[q]; q :: qs] /\
    Canvas.painted ctx' =
      (teal, Canvas.path ctx')
      :: (white, background w h ++ Canvas.path ctx)
      :: Canvas.painted ctx /\
    draw w h edge (Canvas.set_fillStyle style ctx) rotation =
      draw w h edge ctx rotation.
Proof.
  destruct (draw_returns w h edge ctx rotation) as (q & qs & Hq & Hdraw).
  eexists. exists q, qs.
  split; [exact Hdraw |]. split; [exact Hq |].
  split.
  { pose proof Hq as Hc. rewrite drawnPoints_eq in Hc.
    assert (Hlen : List.length
                     (map (fun p => matrixTransform p (pivotTransform w h edge rotation))
                          (corners w h)) =
                   List.length (q :: qs)) by congruence.
    rewrite <- Hlen, length_map. reflexivity. }
  cbn [Canvas.fillStyle Canvas.path Canvas.painted].
  repeat (split; [reflexivity |]).
  reflexivity.
Qed.

(** X10: on a canvas of no size, [w = 0] and [h = 0], every traced
    point is (0, 0), whatever the pivot index and the angle: the polygon
    degenerates to a point and [draw] still returns. *)
Theorem draw_on_empty_canvas (edge : Z) (rotation : R) (ctx : Canvas.Context2D) :
  drawnPoints 0 0 edge rotation = Some (repeat (0, 0) 6) /\
  option_map Canvas.path (draw 0 0 edge ctx rotation) =
    Some [[(0, 0)]; repeat (0, 0) 6].
Proof.
  assert (Hc : corners 0 0 = repeat (0, 0) 6).
  { unfold corners, mapToViewport. cbn [repeat]. repeat (f_equal; try lra). }
  assert (Hd : drawnPoints 0 0 edge rotation = Some (repeat (0, 0) 6)).
  { rewrite drawnPoints_eq. f_equal.
    assert (Hfix : forall p, In p (corners 0 0) ->
              matrixTransform p (pivotTransform 0 0 edge rotation) = p).
    { intros p Hp. rewrite Hc in Hp. apply repeat_spec in Hp. subst p.
      unfold pivotTransform.
      destruct (pivotPoint 0 0 edge) as [piv |] eqn:Hpiv.
      - unfold pivotPoint in Hpiv.
        destruct (edge <? 0)%Z; [discriminate |].
        apply nth_error_In in Hpiv. rewrite Hc in Hpiv.
        apply repeat_spec in Hpiv. subst piv.
        rewrite pivotMatrix_transform. cbv zeta. cbn [fst snd]. f_equal; ring.
      - apply matrixTransform_undefined. }
    rewrite <- Hc. rewrite <- (map_id (corners 0 0)) at 2.
    apply map_ext_in. exact Hfix. }
  split; [exact Hd |].
  rewrite (draw_eq 0 0 edge ctx rotation (0, 0) (repeat (0, 0) 5) Hd).
  reflexivity.
Qed.

(** The coordinates a projected point can have. *)
Lemma corners_coordinates (p : point) :
  In p (corners w h) ->
  (fst p = 0.4 * w \/ fst p = 0.6 * w) /\ (snd p = 0.4 * h \/ snd p = 0.6 * h).
Proof.
  unfold corners, mapToViewport. cbn [In].
  intros [<- | [<- | [<- | [<- | [<- | [<- | []]]]]]]; cbn [fst snd];
    split; ((left; lra) || (right; lra)).
Qed.

(** X11: on a canvas whose sides differ by a factor of at most the
    square root of 3, every point [draw] traces lies within the canvas,
    for every pivot index and every angle: the turning square never
    leaves the surface. *)
Theorem drawn_points_within_canvas
    (edge : Z) (rotation : R) (qs : list point) (q : point) :
  0 < w -> 0 < h -> h * h <= 3 * (w * w) -> w * w <= 3 * (h * h) ->
  drawnPoints w h edge rotation = Some qs -> In q qs ->
  0 <= fst q <= w /\ 0 <= snd q <= h.
Proof.
  intros Hw Hh Hhw Hwh Hd Hq.
  rewrite drawnPoints_eq in Hd.
  assert (Hqs : qs = map (fun p => matrixTransform p (pivotTransform w h edge rotation))
                         (corners w h)) by congruence.
  subst qs. clear Hd.
  apply in_map_iff in Hq. destruct Hq as (p & <- & Hp).
  destruct (corners_coordinates p Hp) as (Hpx & Hpy).
  unfold pivotTransform.
  destruct (pivotPoint w h edge) as [piv |] eqn:Hpiv.
  - assert (Hin : In piv (corners w h)).
    { unfold pivotPoint in Hpiv. destruct (edge <? 0)%Z; [discriminate |].
      apply nth_error_In in Hpiv. exact Hpiv. }
    destruct (corners_coordinates piv Hin) as (Hcx & Hcy).
    rewrite pivotMatrix_transform. cbv zeta. cbn [fst snd].
    set (t := rotation * PI / 180).
    set (u := fst p - (w - fst piv)). set (v := snd p - (h - snd piv)).
    assert (Hu : u * u <= 0.04 * (w * w)).
    { unfold u. destruct Hpx as [-> | ->], Hcx as [-> | ->]; nra. }
    assert (Hv : v * v <= 0.04 * (h * h)).
    { unfold v. destruct Hpy as [-> | ->], Hcy as [-> | ->]; nra. }
    destruct (turned_within t u v (0.4 * w)) as (Hx1 & _); [nra | lra |].
    destruct (turned_within t u v (0.4 * h)) as (_ & Hy2); [nra | lra |].
    destruct Hcx as [-> | ->], Hcy as [-> | ->]; split; lra.
  - rewrite matrixTransform_undefined.
    destruct Hpx as [-> | ->], Hpy as [-> | ->]; split; nra.
Qed.

End PolygonFacts.

(** The pivot's image after a half turn on a 10 by 10 canvas. *)
Lemma drawn_points_within_canvas_witness :
  0 <= fst (8, 2) <= 10 /\ 0 <= snd (8, 2) <= 10.
Proof.
  apply (drawn_points_within_canvas 10 10 0 (-180)
           [(8, 2); (6, 2); (6, 4); (8, 2); (6, 4); (8, 4)] (8, 2));
    try lra.
  - apply drawnPoints_10_10_half_turn.
  - cbn [In]. left. reflexivity.
Defined.

(** ** The key listener and its table *)

Section SelectorFacts.

Import Driver.

(** X12: the guard of the listener and the table [indexCoord] agree: a
    key passes the guard exactly when the table has an entry for it, so
    the assignment [edge = indexCoord[e.key]] never stores [undefined];
    the entries are the indices 0 to 3, and no two keys share one. *)
Theorem guard_matches_indexCoord (key : string) :
  (recognized key = true <-> exists v, get indexCoord key = Some v) /\
  (forall v, get indexCoord key = Some v ->
     (0 <= v <= 3)%Z /\ forall e, keydown key e = v) /\
  (forall key' v,
     get indexCoord key = Some v -> get indexCoord key' = Some v -> key = key').
Proof.
  assert (Hget : forall k v, get indexCoord k = Some v ->
            (k = "r"%string /\ v = 0%Z) \/ (k = "g"%string /\ v = 1%Z) \/
            (k = "b"%string /\ v = 2%Z) \/ (k = "w"%string /\ v = 3%Z)).
  { intros k v. unfold indexCoord. cbn [get].
    destruct (String.eqb_spec "r" k) as [<- | _];
      [intros [= <-]; auto |].
    destruct (String.eqb_spec "g" k) as [<- | _];
      [intros [= <-]; auto |].
    destruct (String.eqb_spec "b" k) as [<- | _];
      [intros [= <-]; auto |].
    destruct (String.eqb_spec "w" k) as [<- | _];
      [intros [= <-]; auto 6 | discriminate]. }
  split; [| split].
  - rewrite recognized_iff. split.
    + intros Hin. exists (keydown key 0).
      apply (keydown_recognized key 0 Hin).
    + intros (v & Hv). unfold recognizedKeys. cbn [In].
      destruct (Hget key v Hv) as [[-> _] | [[-> _] | [[-> _] | [-> _]]]]; auto.
  - intros v Hv.
    destruct (Hget key v Hv) as [[-> ->] | [[-> ->] | [[-> ->] | [-> ->]]]];
      (split; [lia | intros e; reflexivity]).
  - intros key' v Hv Hv'.
    destruct (Hget key v Hv) as [[-> ->] | [[-> ->] | [[-> ->] | [-> ->]]]];
      destruct (Hget key' _ Hv') as [[-> H] | [[-> H] | [[-> H] | [-> H]]]];
      (reflexivity || discriminate H).
Qed.

(** The pivot index after some events, from any state: the entry of the
    last recognized key, or the index before when there is none. *)
Lemma run_edge (w h : R) (es : list event) :
  forall (s : State) (k : nat),
    rotation s = angleAt k ->
    exists s', run w h es s = Some s' /\
               match lastRecognized es with
               | Some key => get indexCoord key = Some (edge s')
               | None => edge s' = edge s
               end.
Proof.
  induction es as [| e es IH]; intros s k Hk.
  - exists s. split; reflexivity.
  - cbn [lastRecognized run]. destruct e as [key |].
    + cbn [step].
      destruct (IH (mkState (keydown key (edge s)) (rotation s) (ctx s)) k Hk)
        as (s' & Hrun & Hlast).
      exists s'. split; [exact Hrun |].
      destruct (lastRecognized es) as [key' |]; [exact Hlast |].
      cbn [edge] in Hlast. rewrite Hlast.
      destruct (recognized key) eqn:Hrec.
      * apply recognized_iff in Hrec.
        apply (keydown_recognized key (edge s) Hrec).
      * unfold keydown. rewrite Hrec. reflexivity.
    + cbn [step].
      destruct (runanimation_returns w h s) as (c & Hc). rewrite Hc.
      destruct (IH (mkState (edge s) (nextRotation (rotation s)) c) (S k))
        as (s' & Hrun & Hlast).
      { cbn [rotation angleAt]. rewrite Hk. reflexivity. }
      exists s'. split; [exact Hrun |].
      destruct (lastRecognized es) as [key' |]; exact Hlast.
Qed.

(** X13: after any sequence of key presses and frames, the pivot index
    is the table entry of the last key pressed among ["r"], ["g"],
    ["b"], ["w"], and 0 when none of them was pressed: frames and other
    keys never change it, and earlier presses leave no trace. *)
Theorem pivot_is_last_recognized_key (w h : R) (es : list event) :
  exists s,
    run w h es initial = Some s /\
    match lastRecognized es with
    | Some key => get indexCoord key = Some (edge s)
    | None => edge s = 0%Z
    end.
Proof.
  destruct (run_edge w h es initial 0 eq_refl) as (s & Hrun & Hlast).
  exists s. split; [exact Hrun | exact Hlast].
Qed.

End SelectorFacts.

(** The key ["b"] is in the table, with the entry 2. *)
Lemma guard_matches_indexCoord_witness :
  (0 <= 2 <= 3)%Z /\ forall e, Driver.keydown "b" e = 2%Z.
Proof.
  apply (proj1 (proj2 (guard_matches_indexCoord "b")) 2%Z). reflexivity.
Defined.

(** ** The angle over the whole run *)

Section CycleFacts.

Import Driver.

(** The angle at every tick. *)
Lemma angleAt_closed_form (k : nat) :
  angleAt k = (-2 * (Z.of_nat k mod 181))%Z.
Proof.
  induction k as [| k IH].
  - reflexivity.
  - cbn [angleAt]. rewrite IH. unfold nextRotation.
    rewrite Nat2Z.inj_succ.
    destruct (Z.ltb_spec (-2 * (Z.of_nat k mod 181) - 2) (-360));
      Z.div_mod_to_equations; lia.
Qed.

(** X14: at every tick, whatever keys were pressed, the angle passed to
    [draw] is [-2 * (k mod 181)] for the number [k] of frames drawn
    before: the angle is always an even integer, and the animation
    repeats after 181 frames, not after 180. *)
Theorem rotation_has_period_181 (w h : R) (es : list event) :
  exists s,
    run w h es initial = Some s /\
    rotation s = (-2 * (Z.of_nat (frames es) mod 181))%Z /\
    angleAt (frames es + 181) = angleAt (frames es) /\
    angleAt 180 <> angleAt 0.
Proof.
  destruct (run_from_initial w h es) as (s & Hrun & Hrot & _).
  exists s. split; [exact Hrun |].
  split; [rewrite Hrot; apply angleAt_closed_form |].
  split.
  - rewrite !angleAt_closed_form. f_equal.
    rewrite Nat2Z.inj_add. change (Z.of_nat 181) with (1 * 181)%Z.
    apply Z.mod_add. discriminate.
  - vm_compute. discriminate.
Qed.

(** From any state, the fills made and the path left by the frames. *)
Lemma run_canvas (w h : R) (es : list event) :
  forall (s : State),
    exists s', run w h es s = Some s' /\
      List.length (Canvas.painted (ctx s')) =
        (List.length (Canvas.painted (ctx s)) + 2 * frames es)%nat /\
      (frames es = 0%nat -> ctx s' = ctx s) /\
      ((0 < frames es)%nat ->
         Canvas.fillStyle (ctx s') = teal /\
         exists q qs, Canvas.path (ctx s') = [[q]; q :: qs] /\
                      List.length (q :: qs) = Z.to_nat Geometry.numPoints).
Proof.
  induction es as [| e es IH]; intros s.
  - exists s. cbn [run frames]. split; [reflexivity |].
    split; [lia | split; [reflexivity | lia]].
  - destruct e as [key |].
    + destruct (IH (mkState (keydown key (edge s)) (rotation s) (ctx s)))
        as (s' & Hrun & Hlen & Hnone & Hsome).
      exists s'. cbn [run step frames]. cbn [ctx] in *.
      split; [exact Hrun | split; [exact Hlen | split; assumption]].
    + destruct (draw_shape w h (edge s) (ctx s) (IZR (rotation s)))
        as (c & q & qs & Hdraw & Hq & Hstyle & Hpath & Hpainted).
      destruct (IH (mkState (edge s) (nextRotation (rotation s)) c))
        as (s' & Hrun & Hlen & Hnone & Hsome).
      exists s'. cbn [run step frames]. unfold runanimation. rewrite Hdraw.
      cbn [ctx] in *.
      split; [exact Hrun |].
      split; [rewrite Hlen, Hpainted; cbn [List.length]; lia |].
      split; [lia |].
      intros _. destruct (frames es) as [| n] eqn:Hn.
      * rewrite Hnone by reflexivity.
        split; [exact Hstyle |]. exists q, qs. split; assumption.
      * apply Hsome. lia.
Qed.

End CycleFacts.

(** X15: over the whole run the context stays of one shape.  Key
    presses alone paint nothing; every frame adds exactly two fills; and
    after any frame the fill style is the teal one and the current path
    holds just the polygon traced last, [numPoints] points and the point
    [closePath] starts from: the path does not grow from frame to
    frame. *)
Theorem frames_keep_context_shape (w h : R) (es : list Driver.event) :
  exists s,
    Driver.run w h es Driver.initial = Some s /\
    List.length (Canvas.painted (Driver.ctx s)) = (2 * Driver.frames es)%nat /\
    (Driver.frames es = 0%nat -> Driver.ctx s = Canvas.fresh) /\
    ((0 < Driver.frames es)%nat ->
       Canvas.fillStyle (Driver.ctx s) = teal /\
       exists q qs, Canvas.path (Driver.ctx s) = [[q]; q :: qs] /\
                    List.length (q :: qs) = Z.to_nat Geometry.numPoints).
Proof.
  destruct (run_canvas w h es Driver.initial) as (s & Hrun & Hlen & Hnone & Hsome).
  exists s. split; [exact Hrun |].
  split; [rewrite Hlen; reflexivity |].
  split; [exact Hnone | exact Hsome].
Qed.

(** A key press and then a frame: the fill style is the teal one. *)
Lemma frames_keep_context_shape_witness :
  exists s,
    Driver.run 300 150 [Driver.KeyDown "g"; Driver.AnimationFrame] Driver.initial
      = Some s /\
    Canvas.fillStyle (Driver.ctx s) = teal.
Proof.
  destruct (frames_keep_context_shape 300 150
              [Driver.KeyDown "g"; Driver.AnimationFrame])
    as (s & Hrun & _ & _ & Hsome).
  exists s. split; [exact Hrun |].
  apply Hsome. cbn [Driver.frames]. lia.
Defined.

(** ** Entry point: facts *)

(** X16: how [mainEntrance] ends.  With no element [#theCanvas] it
    throws before [w] and [h] are assigned.  With an element, [w] and
    [h] become its width and height, which are not negative; if the
    element gives no 2D context the first call of [draw] throws;
    otherwise the first frame is drawn at once, at the angle 0 and with
    the pivot index of that moment, [rotation] is left at -2, and every
    later sequence of events is handled without failure. *)
Theorem mainEntrance_outcome
    (theCanvas : option Page.HTMLCanvasElement) (edge : Z) (g : Page.Globals) :
  match theCanvas with
  | None => Page.mainEntrance theCanvas edge g = (g, Page.TypeError)
  | Some canvasElement =>
      let w := IZR (Z.of_N (Page.width canvasElement)) in
      let h := IZR (Z.of_N (Page.height canvasElement)) in
      fst (Page.mainEntrance theCanvas edge g) = Page.mkGlobals (Some w) (Some h) /\
      0 <= w /\ 0 <= h /\
      match Page.getContext2d canvasElement with
      | None => snd (Page.mainEntrance theCanvas edge g) = Page.TypeError
      | Some ctx =>
          exists ctx',
            draw w h edge ctx 0 = Some ctx' /\
            snd (Page.mainEntrance theCanvas edge g) =
              Page.Returned (Some (Driver.mkState edge (-2) ctx')) /\
            forall es, exists s,
              Driver.run w h es (Driver.mkState edge (-2) ctx') = Some s /\
              Driver.rotation s = Driver.angleAt (1 + Driver.frames es)
      end
  end.
Proof.
  destruct theCanvas as [canvasElement |]; [| reflexivity].
  cbv zeta. unfold Page.mainEntrance.
  destruct (Page.getContext2d canvasElement) as [ctx |].
  - split; [reflexivity |].
    split; [apply IZR_le, N2Z.is_nonneg |].
    split; [apply IZR_le, N2Z.is_nonneg |].
    destruct (draw_returns (IZR (Z.of_N (Page.width canvasElement)))
                (IZR (Z.of_N (Page.height canvasElement))) edge ctx 0)
      as (q & qs & _ & Hdraw).
    eexists. split; [exact Hdraw |].
    split.
    + cbn [snd]. unfold Driver.runanimation.
      cbn [Driver.edge Driver.rotation Driver.ctx].
      rewrite Hdraw. reflexivity.
    + intros es.
      match goal with
      | |- context [Driver.run ?w ?h es ?s1] =>
          destruct (run_returns w h es s1 1 eq_refl) as (s & Hrun & Hrot & _)
      end.
      exists s. split; [exact Hrun | exact Hrot].
  - split; [reflexivity |].
    split; [apply IZR_le, N2Z.is_nonneg |].
    split; [apply IZR_le, N2Z.is_nonneg | reflexivity].
Qed.
